(** * DustInput: a text input that sheds particle dust on deletion

    Shallow embedding of [src/components/dust-input.tsx] and the
    properties of its particle simulation and emission trigger.

    Modelling conventions.
    - A JavaScript [number] is an exact rational ([Q]).  The arithmetic
      of the component is written out as in the source; IEEE-754
      rounding, infinities and NaN are outside the model.
    - A JavaScript string is the list of its UTF-16 code units, so
      [.length] is [length], [s[i]] is [nth_error s i] and
      [s.slice(0, k)] is [firstn k s].
    - [Math.random()] reads the next element of an arbitrary sequence of
      draws from [[0, 1)]; the world records how many were consumed.
    - The refs, the particle store, the canvas and the pending animation
      frame requests are the fields of one [World]; the functions of the
      component are state transformers over it. *)

From Stdlib Require Import String Ascii.
From Stdlib Require Import QArith Qround Qminmax Qpower Lqa ZArith Bool Arith Lia
  List.
Import ListNotations.

Open Scope Q_scope.

(** ** Data model *)

Abbreviation number := Q (only parsing).

Definition CodeUnit := N.
Definition JSString := list CodeUnit.

Definition str (s : string) : JSString :=
  map N_of_ascii (list_ascii_of_string s).

(** The code unit of [' ']. *)
Definition SPACE : CodeUnit := 32%N.

Module Particle.
Record t := mk {
  x : number;
  y : number;
  vx : number;
  vy : number;
  alpha : number;
  size : number;
  lifespan : number;
  color : string
}.
End Particle.

Module particleSettings.
Definition size : number := 1.25.
Definition speed : number := 5.
Definition wind : number := 1.
Definition animationOffsetLeft : number := 25.
Definition numberOfParticles : nat := 120.
Definition lifespan : number := 120.
Definition fadeSpeed : number := 2.
Definition colors : list string :=
  [ "#000000"; "#969696"; "#333333"; "#404040"; "#2e2e2e"; "#dbdbdb" ]%string.
End particleSettings.

(** *** The DOM objects the component touches *)

Module DOMRect.
Record t := mk { left : number; top : number; width : number; height : number }.
End DOMRect.

(** The [<input>] element: its text, the [data-previous-value]
    attribute ([dataset.previousValue], [None] when the attribute is
    absent), its computed font and its bounding box. *)
Record HTMLInputElement := mkInput {
  value : JSString;
  dataset_previousValue : option JSString;
  computedFont : string;
  boundingClientRect : DOMRect.t
}.

(** One filled circle on the bitmap. *)
Record Disc := mkDisc {
  cx : number;
  cy : number;
  radius : number;
  opacity : number;
  fill : string
}.

Record CanvasRenderingContext2D := mkContext {
  globalAlpha : number;
  fillStyle : string;
  bitmap : list Disc
}.

(** [getContext2d] is what [canvas.getContext('2d')] returns: [None]
    stands for [null]. *)
Record HTMLCanvasElement := mkCanvas {
  canvasWidth : number;
  canvasHeight : number;
  getContext2d : option CanvasRenderingContext2D
}.

(** A draw of [Math.random()]: a number in [[0, 1)]. *)
Record Draw := mkDraw {
  sample : number;
  sample_range : 0 <= sample /\ sample < 1
}.

(** *** The world

    [input] is the element the component renders; [handleInput] is its
    [onInput] handler and the element has no children, so the event's
    [e.target] is this element.  [inputMounted] tells whether
    [inputRef.current] points at it or is [null].
    [measureText] is the offscreen context of [getTextWidth]
    ([document.createElement('canvas').getContext('2d')]): [None] when
    the browser returns [null], otherwise the width of a text in a font. *)
Record World := mkWorld {
  input : HTMLInputElement;
  inputMounted : bool;
  canvasRef : option HTMLCanvasElement;
  particlesRef : list Particle.t;
  entropy : nat -> Draw;
  drawn : nat;
  frameRequests : nat;
  innerWidth : number;
  innerHeight : number;
  measureText : option (string -> JSString -> number)
}.

Definition inputRef_current (w : World) : option HTMLInputElement :=
  if inputMounted w then Some (input w) else None.

Definition set_particlesRef (ps : list Particle.t) (w : World) : World :=
  mkWorld (input w) (inputMounted w) (canvasRef w) ps (entropy w) (drawn w)
          (frameRequests w) (innerWidth w) (innerHeight w) (measureText w).

Definition set_drawn (n : nat) (w : World) : World :=
  mkWorld (input w) (inputMounted w) (canvasRef w) (particlesRef w) (entropy w) n
          (frameRequests w) (innerWidth w) (innerHeight w) (measureText w).

Definition set_canvasRef (c : option HTMLCanvasElement) (w : World) : World :=
  mkWorld (input w) (inputMounted w) c (particlesRef w) (entropy w) (drawn w)
          (frameRequests w) (innerWidth w) (innerHeight w) (measureText w).

Definition set_input (i : HTMLInputElement) (w : World) : World :=
  mkWorld i (inputMounted w) (canvasRef w) (particlesRef w) (entropy w) (drawn w)
          (frameRequests w) (innerWidth w) (innerHeight w) (measureText w).

Definition set_frameRequests (n : nat) (w : World) : World :=
  mkWorld (input w) (inputMounted w) (canvasRef w) (particlesRef w) (entropy w)
          (drawn w) n (innerWidth w) (innerHeight w) (measureText w).

Definition set_viewport (vw vh : number) (w : World) : World :=
  mkWorld (input w) (inputMounted w) (canvasRef w) (particlesRef w) (entropy w)
          (drawn w) (frameRequests w) vw vh (measureText w).

(** ** Effects: a state monad over the world *)

Definition M (A : Type) : Type := World -> A * World.

Definition ret {A} (a : A) : M A := fun w => (a, w).

Definition bind {A B} (m : M A) (k : A -> M B) : M B :=
  fun w => let (a, w') := m w in k a w'.

Notation "v <- m ;; k" := (bind m (fun v => k))
  (at level 61, m at next level, right associativity).
Notation "m ;;; k" := (bind m (fun _ => k))
  (at level 61, right associativity).

Definition exec {A} (m : M A) (w : World) : World := snd (m w).

Definition modify (f : World -> World) : M unit := fun w => (tt, f w).

(** [Math.random()]. *)
Definition Math_random : M number :=
  fun w => (sample (entropy w (drawn w)), set_drawn (S (drawn w)) w).

(** [Array.from({ length: count }, f)]: [f] runs once per index, in order. *)
Fixpoint Array_from {A} (count : nat) (f : M A) : M (list A) :=
  match count with
  | O => ret []
  | S n => a <- f ;; rest <- Array_from n f ;; ret (a :: rest)
  end.

(** [xs.map(f)] for an effectful callback: elements are visited in order. *)
Fixpoint Array_map {A B} (f : A -> M B) (xs : list A) : M (list B) :=
  match xs with
  | [] => ret []
  | a :: rest => b <- f a ;; bs <- Array_map f rest ;; ret (b :: bs)
  end.

(** [xs.filter((p) => p !== null)]. *)
Fixpoint filter_non_null {A} (xs : list (option A)) : list A :=
  match xs with
  | [] => []
  | Some a :: rest => a :: filter_non_null rest
  | None :: rest => filter_non_null rest
  end.

(** [a > b] on numbers. *)
Definition Qgt_bool (a b : number) : bool := negb (Qle_bool a b).

(** ** createParticles *)

(** [Math.floor(Math.random() * colors.length)] as an array index. *)
Definition colorIndex (r : number) : nat :=
  Z.to_nat (Qfloor (r * inject_Z (Z.of_nat (length particleSettings.colors)))).

(** The callback of [Array.from]: the properties are evaluated in the
    order of the object literal, one draw each. *)
Definition newParticle (x y : number) : M Particle.t :=
  r1 <- Math_random ;;
  r2 <- Math_random ;;
  r3 <- Math_random ;;
  r4 <- Math_random ;;
  r5 <- Math_random ;;
  ret {| Particle.x := x + (r1 - 0.5) * 25;
         Particle.y := y + (r2 - 0.5) * 5;
         Particle.vx := r3 * particleSettings.speed + particleSettings.wind;
         Particle.vy := (r4 - 0.5) * particleSettings.speed;
         Particle.alpha := 1;
         Particle.size := particleSettings.size;
         Particle.lifespan := particleSettings.lifespan;
         Particle.color := nth (colorIndex r5) particleSettings.colors ""%string |}.

Definition createParticles (x y : number) (count : nat) : M unit :=
  newParticles <- Array_from count (newParticle x y) ;;
  modify (fun w => set_particlesRef (particlesRef w ++ newParticles) w).

(** ** animate *)

(** The four assignments of the [.map] callback in [animate], for the
    draw [r] of [Math.random()]. *)
Definition physics (p : Particle.t) (r : number) : Particle.t :=
  {| Particle.x := Particle.x p + Particle.vx p;
     Particle.y := Particle.y p + (Particle.vy p + (r - 0.5) * 0.5);
     Particle.vx := Particle.vx p;
     Particle.vy := Particle.vy p;
     Particle.alpha :=
       Particle.alpha p - particleSettings.fadeSpeed / Particle.lifespan p;
     Particle.size := Particle.size p * 0.99;
     Particle.lifespan := Particle.lifespan p;
     Particle.color := Particle.color p |}.

(** [p.alpha > 0]. *)
Definition alive (p : Particle.t) : bool := Qgt_bool (Particle.alpha p) 0.

(** The callback of [.map] in [animate]: the particle is updated in
    place and kept when its new alpha is positive, else [null]. *)
Definition updateParticle (p : Particle.t) : M (option Particle.t) :=
  r <- Math_random ;;
  let p := physics p r in
  ret (if alive p then Some p else None).

(** [ctx.clearRect(0, 0, canvas.width, canvas.height)]: the whole bitmap. *)
Definition clearRect (ctx : CanvasRenderingContext2D) : CanvasRenderingContext2D :=
  mkContext (globalAlpha ctx) (fillStyle ctx) [].

(** The body of [forEach]: set the opacity and the fill colour, then
    fill the circle of the particle.  [ctx.arc] wants a radius that is
    not negative; the sizes of the stored particles stay positive
    ([animate_sizes] below). *)
Definition drawParticle (ctx : CanvasRenderingContext2D) (p : Particle.t)
  : CanvasRenderingContext2D :=
  let ctx1 := mkContext (Particle.alpha p) (fillStyle ctx) (bitmap ctx) in
  let ctx2 := mkContext (globalAlpha ctx1) (Particle.color p) (bitmap ctx1) in
  mkContext (globalAlpha ctx2) (fillStyle ctx2)
    (bitmap ctx2 ++
       [ mkDisc (Particle.x p) (Particle.y p) (Particle.size p)
                (globalAlpha ctx2) (fillStyle ctx2) ]).

Definition requestAnimationFrame : M unit :=
  modify (fun w => set_frameRequests (S (frameRequests w)) w).

Definition animate : M unit :=
  fun w =>
    match canvasRef w with
    | None => (tt, w)
    | Some canvas =>
        match getContext2d canvas with
        | None => (tt, w)
        | Some ctx =>
            let ctx := clearRect ctx in
            let '(ctx, w) :=
              if (0 <? length (particlesRef w))%nat then
                let '(updated, w) := Array_map updateParticle (particlesRef w) w in
                let w := set_particlesRef (filter_non_null updated) w in
                let ctx := fold_left drawParticle (particlesRef w) ctx in
                (mkContext 1 (fillStyle ctx) (bitmap ctx), w)
              else (ctx, w) in
            let w :=
              set_canvasRef
                (Some (mkCanvas (canvasWidth canvas) (canvasHeight canvas) (Some ctx)))
                w in
            requestAnimationFrame w
        end
    end.

(** ** The mount effect and resizeCanvas *)

(** [resizeCanvas] closes over the canvas the effect found mounted; the
    listener is only registered in that case. *)
Definition resizeCanvas : M unit :=
  modify (fun w =>
    match canvasRef w with
    | None => w
    | Some canvas =>
        set_canvasRef
          (Some (mkCanvas (innerWidth w) (innerHeight w) (getContext2d canvas))) w
    end).

Definition mountEffect : M unit :=
  fun w =>
    match canvasRef w with
    | None => (tt, w)
    | Some _ => (resizeCanvas ;;; animate) w
    end.

(** The browser delivers a resize: the viewport changes, then the
    listener runs. *)
Definition onResize (vw vh : number) : M unit :=
  modify (set_viewport vw vh) ;;; resizeCanvas.

(** The browser runs one pending animation frame callback, if any. *)
Definition runFrame (w : World) : option World :=
  match frameRequests w with
  | O => None
  | S n => Some (exec animate (set_frameRequests n w))
  end.

(** ** getTextWidth and handleInput *)

Definition getTextWidth (text : JSString) (font : string) (w : World) : number :=
  match measureText w with
  | Some measure =>
      let textWidth := measure font text + particleSettings.animationOffsetLeft in
      let inputFieldWidth :=
        match inputRef_current w with
        | Some el => DOMRect.width (boundingClientRect el)
        | None => 0
        end in
      let width :=
        if Qle_bool textWidth inputFieldWidth then textWidth else inputFieldWidth in
      width
  | None => 0
  end.

(** [inputRef.current?.dataset.previousValue || '']. *)
Definition previousValueOf (w : World) : JSString :=
  match inputRef_current w with
  | Some el =>
      match dataset_previousValue el with
      | Some s => s
      | None => []
      end
  | None => []
  end.

(** [charToDelete !== ' '] for the result of an index access. *)
Definition notSpace (c : option CodeUnit) : bool :=
  match c with
  | Some u => negb (N.eqb u SPACE)
  | None => true
  end.

(** [handleInput(e)]: [e.target] is [input w], the element the handler
    is bound to. *)
Definition handleInput : M unit :=
  fun w =>
    let target := input w in
    let currentValue := value target in
    let previousValue := previousValueOf w in
    let fontStyle := computedFont target in
    let w :=
      if (length currentValue <? length previousValue)%nat then
        let deletedCharIndex := (length previousValue - 1)%nat in
        let charToDelete := nth_error previousValue deletedCharIndex in
        if notSpace charToDelete then
          let textWidth :=
            getTextWidth (firstn deletedCharIndex previousValue) fontStyle w in
          let inputRect := boundingClientRect target in
          let x := DOMRect.left inputRect + textWidth in
          let y := DOMRect.top inputRect + DOMRect.height inputRect / 2 in
          exec (createParticles x y particleSettings.numberOfParticles) w
        else w
      else w in
    if inputMounted w then
      (tt, set_input (mkInput (value (input w)) (Some currentValue)
                              (computedFont (input w))
                              (boundingClientRect (input w))) w)
    else (tt, w).

(** The user edits the field: the element's text becomes [text], then
    the handler runs. *)
Definition onInput (text : JSString) : M unit :=
  modify (fun w =>
    set_input (mkInput text (dataset_previousValue (input w))
                       (computedFont (input w))
                       (boundingClientRect (input w))) w) ;;;
  handleInput.

(** * Derived notions

    What the statements below are phrased with: the parts of the
    functions above that the proofs name, and a few concrete worlds. *)

(** The store after the physics step and before culling: the [i]-th
    particle is updated with the [i]-th draw after [k]. *)
Fixpoint aged (rnd : nat -> Draw) (k : nat) (ps : list Particle.t)
  : list Particle.t :=
  match ps with
  | [] => []
  | p :: rest => physics p (sample (rnd k)) :: aged rnd (S k) rest
  end.

(** What the [.map] callback returns for an updated particle. *)
Definition verdict (p : Particle.t) : option Particle.t :=
  if alive p then Some p else None.

(** The drawing context [animate] obtains, when both the canvas and
    its 2D context are there. *)
Definition drawingContext (w : World) : option CanvasRenderingContext2D :=
  match canvasRef w with
  | Some canvas => getContext2d canvas
  | None => None
  end.

(** [k] physics steps of one particle, the [n]-th with the draw [rs n]. *)
Fixpoint physicsN (k : nat) (rs : nat -> number) (p : Particle.t) : Particle.t :=
  match k with
  | O => p
  | S n => physics (physicsN n rs p) (rs n)
  end.

(** A radius [ctx.arc] accepts and that shows. *)
Definition positiveSize (p : Particle.t) : Prop := 0 < Particle.size p.

(** Order-preserving selection of elements of a list. *)
Inductive subseq {A : Type} : list A -> list A -> Prop :=
| subseq_nil : subseq [] []
| subseq_drop a l1 l2 : subseq l1 l2 -> subseq l1 (a :: l2)
| subseq_keep a l1 l2 : subseq l1 l2 -> subseq (a :: l1) (a :: l2).

(** What a frame never touches in a particle. *)
Definition sameTraits (p q : Particle.t) : Prop :=
  Particle.vx q = Particle.vx p /\
  Particle.vy q = Particle.vy p /\
  Particle.lifespan q = Particle.lifespan p /\
  Particle.color q = Particle.color p.

(** [k] animation frames in a row; [None] when the browser finds no
    pending callback, that is when the loop has stopped. *)
Fixpoint runFrames (k : nat) (w : World) : option World :=
  match k with
  | O => Some w
  | S n =>
      match runFrame w with
      | Some w' => runFrames n w'
      | None => None
      end
  end.

(** The particle [newParticle] builds from the five draws that follow
    the [k]-th one. *)
Definition born (x y : number) (rnd : nat -> Draw) (k : nat) : Particle.t :=
  {| Particle.x := x + (sample (rnd k) - 0.5) * 25;
     Particle.y := y + (sample (rnd (1 + k)%nat) - 0.5) * 5;
     Particle.vx :=
       sample (rnd (2 + k)%nat) * particleSettings.speed + particleSettings.wind;
     Particle.vy := (sample (rnd (3 + k)%nat) - 0.5) * particleSettings.speed;
     Particle.alpha := 1;
     Particle.size := particleSettings.size;
     Particle.lifespan := particleSettings.lifespan;
     Particle.color :=
       nth (colorIndex (sample (rnd (4 + k)%nat))) particleSettings.colors
           ""%string |}.

(** The [count] particles [Array.from] collects, five draws each. *)
Fixpoint burst (x y : number) (rnd : nat -> Draw) (k count : nat)
  : list Particle.t :=
  match count with
  | O => []
  | S n => born x y rnd k :: burst x y rnd (5 + k) n
  end.

(** The test of the two nested [if]s of [handleInput]. *)
Definition detects (w : World) : bool :=
  let current := value (input w) in
  let previous := previousValueOf w in
  (length current <? length previous)%nat
  && notSpace (nth_error previous (length previous - 1)).

(** The arguments [x], [y] of the call of [createParticles]. *)
Definition spawnPoint (w : World) : number * number :=
  let previous := previousValueOf w in
  let rect := boundingClientRect (input w) in
  (DOMRect.left rect
   + getTextWidth (firstn (length previous - 1) previous)
                  (computedFont (input w)) w,
   DOMRect.top rect + DOMRect.height rect / 2).

(** The last [if] of [handleInput]: the current text is written to
    [dataset.previousValue] when the ref is attached. *)
Definition recordPrevious (current : JSString) (w : World) : World :=
  if inputMounted w then
    set_input (mkInput (value (input w)) (Some current)
                       (computedFont (input w))
                       (boundingClientRect (input w))) w
  else w.

(** Whether the handler appended one burst to the store. *)
Definition burstFired (before after : World) : bool :=
  (length (particlesRef after)
   =? length (particlesRef before) + particleSettings.numberOfParticles)%nat.

(** ** Concrete worlds *)

Definition zeroDraw : Draw :=
  mkDraw 0 ltac:(split; [apply Qle_bool_imp_le|]; reflexivity).

Definition quarterDraw : Draw :=
  mkDraw 0.25 ltac:(split; [apply Qle_bool_imp_le|]; reflexivity).

Definition halfDraw : Draw :=
  mkDraw 0.5 ltac:(split; [apply Qle_bool_imp_le|]; reflexivity).

(** A sequence of draws that alternates between 0.25 and 0.5. *)
Definition alternating (n : nat) : Draw :=
  if Nat.even n then quarterDraw else halfDraw.

(** Ten pixels per code unit, whatever the font. *)
Definition tenPerUnit (font : string) (text : JSString) : number :=
  inject_Z (Z.of_nat (length text)) * 10.

Definition emptyContext : CanvasRenderingContext2D :=
  mkContext 1 "#000000"%string [].

Definition fullCanvas : HTMLCanvasElement :=
  mkCanvas 800 600 (Some emptyContext).

Definition field (text : string) (previous : string) : HTMLInputElement :=
  mkInput (str text) (Some (str previous)) "20px sans-serif"%string
          (DOMRect.mk 100 40 300 44).

Definition freshParticle : Particle.t :=
  Particle.mk 120 62 3 (-1) 1 1.25 120 "#333333"%string.

(** One step away from alpha zero: 1/60 is [fadeSpeed / lifespan]. *)
Definition dyingParticle : Particle.t :=
  Particle.mk 300 70 2 1 (1 # 60) 0.7 120 "#969696"%string.

(** The component between two frames, with two particles in flight. *)
Definition frameWorld : World :=
  mkWorld (field "ab" "ab") true (Some fullCanvas)
          [freshParticle; dyingParticle] alternating 0 0 800 600
          (Some tenPerUnit).

(** The same world once the canvas is gone ([canvasRef.current] is
    [null]), with one animation frame still pending. *)
Definition unmountedWorld : World :=
  mkWorld (field "ab" "ab") true None
          [freshParticle; dyingParticle] alternating 0 1 800 600
          (Some tenPerUnit).

(** A canvas whose [getContext('2d')] returns [null]. *)
Definition contextlessWorld : World :=
  mkWorld (field "ab" "ab") true (Some (mkCanvas 800 600 None))
          [freshParticle; dyingParticle] alternating 0 1 800 600
          (Some tenPerUnit).

(** The user has just deleted the ["c"] of ["abc"]. *)
Definition deletionWorld : World :=
  mkWorld (field "ab" "abc") true (Some fullCanvas) [] alternating 0 1 800 600
          (Some tenPerUnit).

(** The same deletion when the offscreen measurement context is
    unavailable; every draw is 0.5, so no particle is jittered. *)
Definition blindWorld : World :=
  mkWorld (field "ab" "abc") true (Some fullCanvas) [] (fun _ => halfDraw)
          0 1 800 600 None.

(** The user has just deleted the trailing space of ["ab "]. *)
Definition spaceWorld : World :=
  mkWorld (field "ab" "ab ") true (Some fullCanvas) [] alternating 0 1 800 600
          (Some tenPerUnit).

(** The text goes from ["ab c"] to ["ab "]: the character that went
    away is the ["c"], the last one of the previous text. *)
Definition innerSpaceWorld : World :=
  mkWorld (field "ab " "ab c") true (Some fullCanvas) [] alternating 0 1 800 600
          (Some tenPerUnit).

(** The user has just typed a ["c"] after ["ab"]. *)
Definition typingWorld : World :=
  mkWorld (field "abc" "ab") true (Some fullCanvas) [] alternating 0 1 800 600
          (Some tenPerUnit).

(** A world in which every draw of [Math.random()] is 0. *)
Definition zeroWorld : World :=
  mkWorld (field "" "") true (Some fullCanvas) [] (fun _ => zeroDraw)
          0 1 800 600 (Some tenPerUnit).

(** A sequence of viewport changes, each followed by the listener. *)
Definition resizes (sizes : list (number * number)) (w : World) : World :=
  fold_left (fun v s => exec (onResize (fst s) (snd s)) v) sizes w.

(** ** Notions for the rest of the component *)

(** The circle [drawParticle] fills for a particle. *)
Definition discOf (p : Particle.t) : Disc :=
  mkDisc (Particle.x p) (Particle.y p) (Particle.size p)
         (Particle.alpha p) (Particle.color p).

(** What one frame takes off the alpha of a particle. *)
Definition fadeStep (p : Particle.t) : number :=
  particleSettings.fadeSpeed / Particle.lifespan p.

(** The alpha of [p] is used up by [k] frames at the latest. *)
Definition fadesWithin (k : nat) (p : Particle.t) : Prop :=
  0 < Particle.lifespan p /\
  Particle.alpha p <= inject_Z (Z.of_nat k) * fadeStep p.

(** The alpha of [p] is not used up by [k] frames. *)
Definition outlasts (k : nat) (p : Particle.t) : Prop :=
  0 < Particle.lifespan p /\
  inject_Z (Z.of_nat k) * fadeStep p < Particle.alpha p.

(** A particle as the component makes and keeps them. *)
Definition seasoned (p : Particle.t) : Prop :=
  0 < Particle.alpha p /\ Particle.alpha p <= 1 /\
  0 < Particle.size p /\ Particle.size p <= particleSettings.size /\
  Particle.lifespan p = particleSettings.lifespan /\
  particleSettings.wind <= Particle.vx p /\
  Particle.vx p < particleSettings.speed + particleSettings.wind /\
  - (particleSettings.speed / 2) <= Particle.vy p /\
  Particle.vy p < particleSettings.speed / 2 /\
  In (Particle.color p) particleSettings.colors.

(** A disc the canvas shows: a radius [arc] accepts and an opacity
    [globalAlpha] accepts. *)
Definition visibleDisc (d : Disc) : Prop :=
  0 < radius d /\ 0 < opacity d /\ opacity d <= 1.

(** [current] is shorter than [previous] and [previous] does not end in
    a space: the test of [handleInput] on two texts. *)
Definition shortens (previous current : JSString) : bool :=
  (length current <? length previous)%nat
  && notSpace (nth_error previous (length previous - 1)).

(** The number of edits of [texts] that shorten the text before them,
    starting from [previous]. *)
Fixpoint bursts (previous : JSString) (texts : list JSString) : nat :=
  match texts with
  | [] => O
  | t :: rest => ((if shortens previous t then 1 else 0) + bursts t rest)%nat
  end.

(** The user edits the field several times in a row. *)
Definition edits (texts : list JSString) (w : World) : World :=
  fold_left (fun v t => exec (onInput t) v) texts w.

(** A store of two particles as [createParticles] makes them. *)
Definition seasonedWorld : World :=
  mkWorld (field "ab" "abc") true (Some fullCanvas)
          [ Particle.mk 120 62 3 (-1) 1 1.25 120 "#333333"%string;
            Particle.mk 300 70 2 1 0.5 0.7 120 "#969696"%string ]
          alternating 0 1 800 600 (Some tenPerUnit).


(** * Properties *)

(** ** The world after the elementary effects *)

Lemma set_drawn_same (w : World) : set_drawn (drawn w) w = w.
Proof. destruct w; reflexivity. Qed.


Ltac world_simpl :=
  unfold set_particlesRef, set_drawn, set_canvasRef, set_input,
    set_frameRequests, set_viewport in *;
  cbn [input inputMounted canvasRef particlesRef entropy drawn frameRequests
       innerWidth innerHeight measureText fst snd] in *.

(** ** The physics step of [animate] *)

Lemma Array_map_updateParticle (ps : list Particle.t) :
  forall w,
    Array_map updateParticle ps w =
    (map verdict (aged (entropy w) (drawn w) ps),
     set_drawn (drawn w + length ps) w).
Proof.
  induction ps as [|p ps IH]; intros w.
  - simpl. unfold ret. now rewrite Nat.add_0_r, set_drawn_same.
  - cbn [Array_map]. unfold bind at 1. unfold updateParticle at 1.
    unfold bind at 1, Math_random at 1, ret at 1.
    unfold bind at 1. rewrite IH. unfold ret. cbn.
    f_equal. unfold set_drawn; cbn. f_equal. lia.
Qed.

Lemma filter_non_null_verdict (l : list Particle.t) :
  filter_non_null (map verdict l) = filter alive l.
Proof.
  induction l as [|q l IH]; [reflexivity|].
  cbn. unfold verdict at 1. destruct (alive q); cbn; now rewrite IH.
Qed.

Lemma aged_length rnd ps : forall k, length (aged rnd k ps) = length ps.
Proof. induction ps; intros; cbn; [reflexivity|now rewrite IHps]. Qed.

Lemma aged_nth_error rnd ps :
  forall k i,
    nth_error (aged rnd k ps) i =
    option_map (fun p => physics p (sample (rnd (k + i)%nat))) (nth_error ps i).
Proof.
  induction ps as [|p ps IH]; intros k [|i]; cbn; try reflexivity.
  - now rewrite Nat.add_0_r.
  - rewrite IH. now replace (S k + i)%nat with (k + S i)%nat by lia.
Qed.

Lemma animate_skipped (w : World) :
  drawingContext w = None -> animate w = (tt, w).
Proof.
  unfold drawingContext, animate. destruct (canvasRef w) as [c|]; [|reflexivity].
  now intros ->.
Qed.

Lemma animate_store (w : World) ctx :
  drawingContext w = Some ctx ->
  particlesRef (exec animate w) =
  filter alive (aged (entropy w) (drawn w) (particlesRef w)).
Proof.
  unfold drawingContext, animate, exec.
  destruct (canvasRef w) as [c|]; [|discriminate]. intros ->.
  destruct (particlesRef w) as [|p ps] eqn:E.
  - cbn. exact E.
  - cbn [length Nat.ltb Nat.leb]. rewrite <- E, Array_map_updateParticle.
    cbn. now rewrite filter_non_null_verdict.
Qed.

Lemma jitter_range (d : Draw) :
  - 0.25 <= (sample d - 0.5) * 0.5 /\ (sample d - 0.5) * 0.5 < 0.25.
Proof. destruct d as [r [Hlo Hhi]]; cbn. split; lra. Qed.

(** The fade is linear: the decrement only depends on the lifespan,
    which the step leaves alone, so after [k] steps alpha has dropped by
    [k] times [fadeSpeed / lifespan]. *)
Lemma physicsN_lifespan k rs p :
  Particle.lifespan (physicsN k rs p) = Particle.lifespan p.
Proof. induction k; cbn; [reflexivity|exact IHk]. Qed.

Lemma physicsN_alpha k rs p :
  Particle.alpha (physicsN k rs p) ==
  Particle.alpha p
  - inject_Z (Z.of_nat k) * (particleSettings.fadeSpeed / Particle.lifespan p).
Proof.
  induction k as [|k IH].
  - cbn. ring.
  - cbn [physicsN physics Particle.alpha]. rewrite IH, physicsN_lifespan.
    rewrite Nat2Z.inj_succ. unfold Z.succ. rewrite inject_Z_plus. ring.
Qed.

(** ** Sizes stay positive *)

Lemma physics_size_positive p r :
  0 < Particle.size p -> 0 < Particle.size (physics p r).
Proof. cbn [physics Particle.size]. intros H. lra. Qed.

Lemma aged_sizes rnd ps :
  forall k,
    Forall positiveSize ps -> Forall positiveSize (aged rnd k ps).
Proof.
  induction ps as [|p ps IH]; intros k H; cbn; [constructor|].
  inversion H; subst. constructor; [now apply physics_size_positive|now apply IH].
Qed.

Lemma burst_sizes x y rnd count :
  forall k, Forall positiveSize (burst x y rnd k count).
Proof.
  induction count as [|n IH]; intros k; cbn; constructor; [reflexivity|apply IH].
Qed.

Lemma animate_sizes (w : World) :
  Forall positiveSize (particlesRef w) ->
  Forall positiveSize (particlesRef (exec animate w)).
Proof.
  intros H. destruct (drawingContext w) as [ctx|] eqn:Hctx.
  - rewrite (animate_store w ctx Hctx).
    apply Forall_forall. intros q Hq. apply filter_In in Hq.
    destruct Hq as [Hq _]. revert q Hq. apply Forall_forall.
    now apply aged_sizes.
  - unfold exec. now rewrite (animate_skipped w Hctx).
Qed.

(** ** Culling *)

Lemma alive_iff (q : Particle.t) : alive q = true <-> ~ Particle.alpha q <= 0.
Proof.
  unfold alive, Qgt_bool. rewrite negb_true_iff, <- not_true_iff_false.
  now rewrite Qle_bool_iff.
Qed.

Lemma aged_Forall2 rnd ps :
  forall k,
    Forall2 (fun p q => exists d : Draw, q = physics p (sample d))
            ps (aged rnd k ps).
Proof.
  induction ps as [|p ps IH]; intros k; cbn; constructor; [|apply IH].
  now exists (rnd k).
Qed.

Lemma subseq_refl {A} (l : list A) : subseq l l.
Proof. induction l; constructor; assumption. Qed.

Lemma sameTraits_refl (l : list Particle.t) : Forall2 sameTraits l l.
Proof. induction l; constructor; [now repeat split|assumption]. Qed.

Lemma survivors_of_aged rnd ps :
  forall k,
    exists kept,
      subseq kept ps /\ Forall2 sameTraits kept (filter alive (aged rnd k ps)).
Proof.
  induction ps as [|p ps IH]; intros k.
  - exists []. split; constructor.
  - destruct (IH (S k)) as (kept & Hsub & Hall). cbn [aged filter].
    destruct (alive (physics p (sample (rnd k)))).
    + exists (p :: kept). split; [now constructor|].
      constructor; [now repeat split|assumption].
    + exists kept. split; [now constructor|assumption].
Qed.

(** ** The frame loop *)

(** The whole world after a frame that is drawn. *)
Lemma animate_drawn (w : World) canvas ctx :
  canvasRef w = Some canvas ->
  getContext2d canvas = Some ctx ->
  exists ctx',
    exec animate w =
    mkWorld (input w) (inputMounted w)
            (Some (mkCanvas (canvasWidth canvas) (canvasHeight canvas) (Some ctx')))
            (filter alive (aged (entropy w) (drawn w) (particlesRef w)))
            (entropy w) (drawn w + length (particlesRef w))
            (S (frameRequests w)) (innerWidth w) (innerHeight w) (measureText w).
Proof.
  intros Hc Hctx. unfold animate, exec. rewrite Hc, Hctx.
  destruct (0 <? length (particlesRef w))%nat eqn:El.
  - rewrite Array_map_updateParticle. cbn.
    rewrite filter_non_null_verdict. eexists. reflexivity.
  - apply Nat.ltb_ge in El.
    assert (E : particlesRef w = [])
      by (destruct (particlesRef w); cbn in El; [reflexivity|lia]).
    unfold requestAnimationFrame, modify. world_simpl.
    rewrite E, Nat.add_0_r. eexists. reflexivity.
Qed.

Lemma animate_rearms (w : World) ctx :
  drawingContext w = Some ctx ->
  frameRequests (exec animate w) = S (frameRequests w) /\
  exists ctx', drawingContext (exec animate w) = Some ctx'.
Proof.
  unfold drawingContext. destruct (canvasRef w) as [c|] eqn:Hc; [|discriminate].
  intros Hctx. destruct (animate_drawn w c ctx Hc Hctx) as [ctx' ->].
  cbn. eauto.
Qed.

Lemma frames_keep_running (k : nat) :
  forall w ctx,
    drawingContext w = Some ctx ->
    (0 < frameRequests w)%nat ->
    exists w' ctx',
      runFrames k w = Some w' /\
      drawingContext w' = Some ctx' /\
      frameRequests w' = frameRequests w.
Proof.
  induction k as [|k IH]; intros w ctx Hctx Hpos.
  - exists w, ctx. now repeat split.
  - cbn [runFrames]. unfold runFrame.
    destruct (frameRequests w) as [|n] eqn:En; [lia|].
    assert (Hctx1 : drawingContext (set_frameRequests n w) = Some ctx)
      by exact Hctx.
    destruct (animate_rearms _ _ Hctx1) as (Hre & ctx1 & Hctx2).
    destruct (IH _ _ Hctx2) as (w' & ctx' & Hrun & Hd & Hf).
    + rewrite Hre. lia.
    + exists w', ctx'. repeat split; [exact Hrun|exact Hd|].
      rewrite Hf, Hre. reflexivity.
Qed.

(** ** createParticles *)

Lemma newParticle_born x y w :
  newParticle x y w =
  (born x y (entropy w) (drawn w), set_drawn (5 + drawn w) w).
Proof. reflexivity. Qed.

Lemma Array_from_newParticle x y count :
  forall w,
    Array_from count (newParticle x y) w =
    (burst x y (entropy w) (drawn w) count,
     set_drawn (drawn w + 5 * count) w).
Proof.
  induction count as [|n IH]; intros w.
  - cbn. unfold ret. now rewrite Nat.add_0_r, set_drawn_same.
  - cbn [Array_from]. unfold bind at 1. rewrite newParticle_born.
    unfold bind at 1. rewrite IH. unfold ret. world_simpl.
    f_equal. f_equal. lia.
Qed.

Lemma createParticles_world x y count w :
  exec (createParticles x y count) w =
  set_particlesRef
    (particlesRef w ++ burst x y (entropy w) (drawn w) count)
    (set_drawn (drawn w + 5 * count) w).
Proof.
  unfold createParticles, exec, bind. rewrite Array_from_newParticle.
  reflexivity.
Qed.

Lemma burst_length x y rnd count : forall k, length (burst x y rnd k count) = count.
Proof. induction count; intros; cbn; [reflexivity|now rewrite IHcount]. Qed.


(** [Math.floor(r * 6)] for a draw [r]: a valid index of the palette,
    and index [i] is hit exactly by the draws with [i <= 6 r < i + 1],
    six slots of equal width. *)
Lemma colorIndex_slot (d : Draw) (i : nat) :
  colorIndex (sample d) = i <->
  inject_Z (Z.of_nat i) <= sample d * 6 /\
  sample d * 6 < inject_Z (Z.of_nat i) + 1.
Proof.
  destruct d as [r [Hlo Hhi]]; cbn [sample]. unfold colorIndex.
  change (inject_Z (Z.of_nat (length particleSettings.colors))) with 6.
  assert (Hfl : (0 <= Qfloor (r * 6))%Z).
  { change 0%Z with (Qfloor 0). apply Qfloor_resp_le. lra. }
  pose proof (Qfloor_le (r * 6)) as Hle.
  pose proof (Qlt_floor (r * 6)) as Hlt.
  set (z := Qfloor (r * 6)) in *. clearbody z.
  rewrite inject_Z_plus in Hlt. change (inject_Z 1) with 1 in Hlt.
  split.
  - intros <-. rewrite Z2Nat.id by exact Hfl. split; lra.
  - intros [H1 H2].
    assert (Hi : z = Z.of_nat i).
    { assert (inject_Z (Z.of_nat i) < inject_Z (z + 1)) as A
        by (rewrite inject_Z_plus; change (inject_Z 1) with 1; lra).
      assert (inject_Z z < inject_Z (Z.of_nat i + 1)) as B
        by (rewrite inject_Z_plus; change (inject_Z 1) with 1; lra).
      rewrite <- Zlt_Qlt in A, B. lia. }
    rewrite Hi. apply Nat2Z.id.
Qed.

Lemma colorIndex_bound (d : Draw) :
  (colorIndex (sample d) < length particleSettings.colors)%nat.
Proof.
  destruct (colorIndex_slot d (colorIndex (sample d))) as [H _].
  destruct (H eq_refl) as [H1 H2]. clear H.
  destruct d as [r [Hlo Hhi]]; cbn [sample] in *.
  set (i := colorIndex r) in *. clearbody i.
  change (length particleSettings.colors) with 6%nat.
  assert (inject_Z (Z.of_nat i) < inject_Z 6) as A.
  { change (inject_Z 6) with 6. lra. }
  rewrite <- Zlt_Qlt in A. lia.
Qed.

(** ** handleInput *)

Lemma handleInput_unfold (w : World) :
  handleInput w =
  (tt,
   recordPrevious (value (input w))
     (if detects w then
        exec (createParticles (fst (spawnPoint w)) (snd (spawnPoint w))
                              particleSettings.numberOfParticles) w
      else w)).
Proof.
  unfold handleInput, detects, recordPrevious. cbn zeta.
  destruct (length (value (input w)) <? length (previousValueOf w))%nat;
    cbn [andb];
    [destruct (notSpace _)|].
  - change (fst (spawnPoint w)) with
      (DOMRect.left (boundingClientRect (input w)) +
       getTextWidth
         (firstn (length (previousValueOf w) - 1) (previousValueOf w))
         (computedFont (input w)) w).
    change (snd (spawnPoint w)) with
      (DOMRect.top (boundingClientRect (input w)) +
       DOMRect.height (boundingClientRect (input w)) / 2).
    set (w1 := exec (createParticles _ _ _) w). clearbody w1.
    now destruct (inputMounted w1).
  - now destruct (inputMounted w).
  - now destruct (inputMounted w).
Qed.

Lemma recordPrevious_store current w :
  particlesRef (recordPrevious current w) = particlesRef w.
Proof. unfold recordPrevious. now destruct (inputMounted w). Qed.

Lemma handleInput_store (w : World) :
  particlesRef (exec handleInput w) =
  if detects w then
    particlesRef
      (exec (createParticles (fst (spawnPoint w)) (snd (spawnPoint w))
                             particleSettings.numberOfParticles) w)
  else particlesRef w.
Proof.
  unfold exec at 1. rewrite handleInput_unfold. cbn [snd].
  rewrite recordPrevious_store. now destruct (detects w).
Qed.

Lemma detects_iff (w : World) :
  detects w = true <->
  (length (value (input w)) < length (previousValueOf w))%nat /\
  nth_error (previousValueOf w) (length (previousValueOf w) - 1) <> Some SPACE.
Proof.
  unfold detects. cbn zeta. rewrite andb_true_iff, Nat.ltb_lt.
  apply and_iff_compat_l. unfold notSpace.
  destruct (nth_error _ _) as [u|].
  - rewrite negb_true_iff, N.eqb_neq. split; congruence.
  - split; [discriminate|reflexivity].
Qed.

Lemma createParticles_store x y count w :
  particlesRef (exec (createParticles x y count) w) =
  particlesRef w ++ burst x y (entropy w) (drawn w) count.
Proof. now rewrite createParticles_world. Qed.

Lemma createParticles_sizes x y count w :
  Forall positiveSize (particlesRef w) ->
  Forall positiveSize (particlesRef (exec (createParticles x y count) w)).
Proof.
  intros H. rewrite createParticles_store. apply Forall_app.
  split; [exact H|apply burst_sizes].
Qed.

Lemma handleInput_appends (w : World) :
  exists added, particlesRef (exec handleInput w) = particlesRef w ++ added.
Proof.
  rewrite handleInput_store. destruct (detects w).
  - rewrite createParticles_store. eauto.
  - exists []. now rewrite app_nil_r.
Qed.

Lemma resizeCanvas_store (w : World) :
  particlesRef (exec resizeCanvas w) = particlesRef w.
Proof.
  unfold resizeCanvas, modify, exec. cbn. now destruct (canvasRef w).
Qed.

Lemma onResize_store vw vh (w : World) :
  particlesRef (exec (onResize vw vh) w) = particlesRef w.
Proof.
  unfold onResize, bind, modify, exec. cbn. unfold set_viewport; cbn.
  now destruct (canvasRef w).
Qed.

(** ** The concrete worlds at work *)

Example frameWorld_frame :
  map Particle.alpha (particlesRef (exec animate frameWorld)) = [1 - 2 / 120].
Proof. reflexivity. Qed.

Example dyingParticle_reaches_zero :
  Particle.alpha (physics dyingParticle 0.5) == 0 /\
  alive (physics dyingParticle 0.5) = false.
Proof. split; reflexivity. Qed.

Example deletion_fires :
  detects deletionWorld = true /\
  length (particlesRef (exec handleInput deletionWorld)) = 120%nat /\
  spawnPoint deletionWorld = (100 + (inject_Z 2 * 10 + 25), 40 + 44 / 2).
Proof. repeat split; vm_compute; reflexivity. Qed.

Example space_deletion_is_silent :
  previousValueOf spaceWorld = str "ab " /\
  value (input spaceWorld) = str "ab" /\
  detects spaceWorld = false /\
  particlesRef (exec handleInput spaceWorld) = [].
Proof. repeat split; vm_compute; reflexivity. Qed.

(** From ["ab c"] to ["ab "] the handler looks at the last character of
    the previous text, which is ["c"], and a burst is created. *)
Example inner_space_fires :
  previousValueOf innerSpaceWorld = str "ab c" /\
  value (input innerSpaceWorld) = str "ab " /\
  nth_error (previousValueOf innerSpaceWorld) 3 = Some (N_of_ascii "c") /\
  detects innerSpaceWorld = true /\
  length (particlesRef (exec handleInput innerSpaceWorld)) = 120%nat.
Proof. repeat split; vm_compute; reflexivity. Qed.

Example typing_is_silent :
  detects typingWorld = false /\
  particlesRef (exec handleInput typingWorld) = [].
Proof. repeat split; vm_compute; reflexivity. Qed.

(** * Statements of the specification *)

(** ** The simulation *)

(** C5.  In a frame that [animate] draws (canvas and 2D context are
    there; otherwise the frame is skipped, see C4), every particle of the
    store is
    updated before the culling: the [i]-th particle loses exactly
    [fadeSpeed / lifespan] of alpha (its lifespan is left as it was),
    its size is multiplied by 0.99, its x grows by vx and its y by vy
    plus a jitter.  The jitter is [(r - 0.5) * 0.5] for the particle's
    own draw [r] of [Math.random()], hence as uniform as the draw, and
    stays within 0.25 of zero.  The store after the frame holds the
    updated particles that are still alive. *)
Theorem animate_physics (w : World) (ctx : CanvasRenderingContext2D) :
  drawingContext w = Some ctx ->
  exists updated : list Particle.t,
    length updated = length (particlesRef w) /\
    particlesRef (exec animate w) = filter alive updated /\
    forall i p,
      nth_error (particlesRef w) i = Some p ->
      exists q,
        nth_error updated i = Some q /\
        let r := sample (entropy w (drawn w + i)%nat) in
        let jitter := (r - 0.5) * 0.5 in
        Particle.alpha q =
          Particle.alpha p - particleSettings.fadeSpeed / Particle.lifespan p /\
        Particle.lifespan q = Particle.lifespan p /\
        Particle.size q = Particle.size p * 0.99 /\
        Particle.x q = Particle.x p + Particle.vx p /\
        Particle.y q = Particle.y p + (Particle.vy p + jitter) /\
        - 0.25 <= jitter /\ jitter < 0.25.
Proof.
  intros Hctx.
  exists (aged (entropy w) (drawn w) (particlesRef w)).
  split; [apply aged_length|].
  split; [now apply animate_store with ctx|].
  intros i p Hp. rewrite aged_nth_error, Hp. cbn [option_map].
  eexists; split; [reflexivity|]. cbn zeta.
  repeat (split; [reflexivity|]).
  apply jitter_range.
Qed.

Lemma animate_physics_witness :
  exists updated : list Particle.t,
    length updated = 2%nat /\
    particlesRef (exec animate frameWorld) = filter alive updated.
Proof.
  destruct (animate_physics frameWorld emptyContext eq_refl)
    as (updated & Hlen & Hstore & _).
  exists updated. split; assumption.
Defined.

Lemma filter_subseq {A} (f : A -> bool) (l : list A) : subseq (filter f l) l.
Proof.
  induction l as [|a l IH]; cbn; [constructor|].
  destruct (f a); now constructor.
Qed.

(** C6.  In a frame that [animate] draws, a particle leaves the store if
    and only if its alpha after the update is at most 0, in particular
    when it is exactly 0; what stays is the updated store in its order.
    Nothing else removes particles: a skipped frame, [createParticles],
    [handleInput] and a resize leave every stored particle in place. *)
Theorem animate_culling (w : World) (ctx : CanvasRenderingContext2D) :
  drawingContext w = Some ctx ->
  exists updated : list Particle.t,
    Forall2 (fun p q => exists d : Draw, q = physics p (sample d))
            (particlesRef w) updated /\
    particlesRef (exec animate w) = filter alive updated /\
    subseq (particlesRef (exec animate w)) updated /\
    (forall q, In q updated ->
               (~ In q (particlesRef (exec animate w)) <-> Particle.alpha q <= 0)) /\
    (forall q, In q updated -> Particle.alpha q == 0 ->
               ~ In q (particlesRef (exec animate w))) /\
    (forall v, drawingContext v = None ->
               particlesRef (exec animate v) = particlesRef v) /\
    (forall v x y n, exists added,
        particlesRef (exec (createParticles x y n) v) = particlesRef v ++ added) /\
    (forall v, exists added,
        particlesRef (exec handleInput v) = particlesRef v ++ added) /\
    (forall v vw vh, particlesRef (exec (onResize vw vh) v) = particlesRef v).
Proof.
  intros Hctx.
  exists (aged (entropy w) (drawn w) (particlesRef w)).
  rewrite (animate_store w ctx Hctx).
  split; [apply aged_Forall2|].
  split; [reflexivity|].
  split; [apply filter_subseq|].
  split; [|split]; [| |repeat split].
  - intros q Hq. rewrite filter_In, alive_iff. split.
    + intros Hout. destruct (Qlt_le_dec 0 (Particle.alpha q)) as [Hpos|Hle];
        [|exact Hle].
      exfalso. apply Hout. split; [exact Hq|]. now apply Qlt_not_le.
    + intros Hle [_ Hpos]. now apply Hpos.
  - intros q Hq Hzero. rewrite filter_In, alive_iff.
    intros [_ Hpos]. apply Hpos. rewrite Hzero. apply Qle_refl.
  - intros v Hv. unfold exec. now rewrite animate_skipped.
  - intros v x y n. rewrite createParticles_store. eauto.
  - apply handleInput_appends.
  - intros v vw vh. apply onResize_store.
Qed.

Lemma animate_culling_witness :
  exists updated : list Particle.t,
    Forall2 (fun p q => exists d : Draw, q = physics p (sample d))
            (particlesRef frameWorld) updated /\
    subseq (particlesRef (exec animate frameWorld)) updated.
Proof.
  destruct (animate_culling frameWorld emptyContext eq_refl)
    as (updated & Hphys & _ & Hsub & _).
  exists updated. split; assumption.
Defined.

(** C10.  A frame leaves vx, vy, lifespan and color of every particle
    as they were: the store after the frame is, in the same order, a
    selection of the particles of the store before it, each with these
    four fields unchanged. *)
Theorem animate_keeps_traits (w : World) :
  exists kept : list Particle.t,
    subseq kept (particlesRef w) /\
    Forall2 sameTraits kept (particlesRef (exec animate w)).
Proof.
  destruct (drawingContext w) as [ctx|] eqn:Hctx.
  - rewrite (animate_store w ctx Hctx). apply survivors_of_aged.
  - unfold exec. rewrite (animate_skipped w Hctx). cbn [snd].
    exists (particlesRef w). split; [apply subseq_refl|apply sameTraits_refl].
Qed.

(** C4, as the code has it.  When the canvas and its 2D context are
    there, [animate] requests the next frame, and from then on the loop
    keeps running for any number of frames.  When the canvas or the
    context is missing, [animate] returns at once: nothing changes, and
    no frame is requested, so the loop stops once no request is left. *)
Theorem animate_rearms_when_drawn (w : World) :
  match drawingContext w with
  | Some _ =>
      frameRequests (exec animate w) = S (frameRequests w) /\
      forall k, exists w',
        runFrames k (exec animate w) = Some w' /\ (0 < frameRequests w')%nat
  | None =>
      animate w = (tt, w) /\
      frameRequests (exec animate w) = frameRequests w /\
      (frameRequests w = 0%nat -> runFrame (exec animate w) = None)
  end.
Proof.
  destruct (drawingContext w) as [ctx|] eqn:Hctx.
  - destruct (animate_rearms w ctx Hctx) as (Hre & ctx1 & Hctx1).
    split; [exact Hre|]. intros k.
    destruct (frames_keep_running k _ _ Hctx1) as (w' & ctx' & Hrun & _ & Hf).
    + rewrite Hre. lia.
    + exists w'. split; [exact Hrun|]. rewrite Hf, Hre. lia.
  - unfold exec. rewrite (animate_skipped w Hctx). cbn [snd].
    repeat split. intros H0. unfold runFrame. now rewrite H0.
Qed.

(** C4, counterexample.  Without a canvas, and likewise without a 2D
    context, [animate] does not request another frame: the one pending
    frame runs, and the next step of the loop finds nothing to run. *)
Lemma animate_without_surface_stops :
  frameRequests (exec animate unmountedWorld)
    <> S (frameRequests unmountedWorld) /\
  frameRequests (exec animate contextlessWorld)
    <> S (frameRequests contextlessWorld) /\
  (exists w', runFrame unmountedWorld = Some w' /\ runFrame w' = None) /\
  (exists w', runFrame contextlessWorld = Some w' /\ runFrame w' = None).
Proof.
  split; [cbn; lia|]. split; [cbn; lia|].
  split; eexists; split; reflexivity.
Qed.

(** ** The emission trigger *)

Lemma burst_positive x y w :
  length (particlesRef (exec (createParticles x y
            particleSettings.numberOfParticles) w)) =
  (length (particlesRef w) + particleSettings.numberOfParticles)%nat.
Proof. now rewrite createParticles_store, length_app, burst_length. Qed.

Lemma burstFired_detects (w : World) :
  burstFired w (exec handleInput w) = detects w.
Proof.
  unfold burstFired. rewrite handleInput_store. destruct (detects w).
  - rewrite burst_positive. apply Nat.eqb_refl.
  - apply Nat.eqb_neq. unfold particleSettings.numberOfParticles. lia.
Qed.

(** C1.  [handleInput] appends a burst to the store if and only if the
    current text is shorter than the previous one and the last
    character of the previous text is not a space; otherwise the store
    is left as it was.  So no burst when the text did not get shorter,
    and none when the previous text ends in a space. *)
Theorem handleInput_fires_iff (w : World) :
  let current := value (input w) in
  let previous := previousValueOf w in
  let after := exec handleInput w in
  (burstFired w after = true <->
     (length current < length previous)%nat /\
     nth_error previous (length previous - 1) <> Some SPACE) /\
  (burstFired w after = false <-> particlesRef after = particlesRef w) /\
  ((length previous <= length current)%nat -> burstFired w after = false) /\
  (nth_error previous (length previous - 1) = Some SPACE ->
   burstFired w after = false).
Proof.
  cbn zeta. rewrite <- detects_iff, burstFired_detects.
  split; [reflexivity|]. split; [|split].
  - rewrite handleInput_store. destruct (detects w) eqn:Hd.
    + split; [discriminate|]. intros Heq.
      apply (f_equal (@length _)) in Heq. rewrite burst_positive in Heq.
      unfold particleSettings.numberOfParticles in Heq. lia.
    + split; reflexivity.
  - intros Hlen. apply not_true_iff_false. rewrite detects_iff. lia.
  - intros Hsp. apply not_true_iff_false. rewrite detects_iff.
    intros [_ Hne]. now apply Hne.
Qed.

Lemma Qle_bool_min (a b : Q) : (if Qle_bool a b then a else b) = Qmin a b.
Proof.
  unfold Qmin, GenericMinMax.gmin, Qle_bool, Qcompare, Z.leb.
  now destruct (Qnum a * QDen b ?= Qnum b * QDen a)%Z.
Qed.

Lemma detects_mounted (w : World) : detects w = true -> inputMounted w = true.
Proof.
  rewrite detects_iff. unfold previousValueOf, inputRef_current.
  destruct (inputMounted w); [reflexivity|]. cbn. lia.
Qed.

(** C2.  When a burst fires and the offscreen measurement context is
    there, the burst is created at x = left edge of the input + the
    smaller of (measured width of the previous text without its last
    character + the offset) and the width of the input, and at
    y = top + height / 2.  Hence x is at most left edge + width, for
    every font, text and measurement. *)
Theorem handleInput_spawn_point
  (w : World) (measure : string -> JSString -> number) :
  let previous := previousValueOf w in
  let rect := boundingClientRect (input w) in
  let x :=
    DOMRect.left rect +
    Qmin (measure (computedFont (input w))
                  (firstn (length previous - 1) previous)
          + particleSettings.animationOffsetLeft)
         (DOMRect.width rect) in
  let y := DOMRect.top rect + DOMRect.height rect / 2 in
  measureText w = Some measure ->
  burstFired w (exec handleInput w) = true ->
  particlesRef (exec handleInput w) =
    particlesRef (exec (createParticles x y particleSettings.numberOfParticles) w)
  /\ spawnPoint w = (x, y)
  /\ x <= DOMRect.left rect + DOMRect.width rect.
Proof.
  cbn zeta. intros Hm Hfired. rewrite burstFired_detects in Hfired.
  assert (Hsp : spawnPoint w =
    (DOMRect.left (boundingClientRect (input w)) +
     Qmin (measure (computedFont (input w))
             (firstn (length (previousValueOf w) - 1) (previousValueOf w))
           + particleSettings.animationOffsetLeft)
          (DOMRect.width (boundingClientRect (input w))),
     DOMRect.top (boundingClientRect (input w)) +
     DOMRect.height (boundingClientRect (input w)) / 2)).
  { unfold spawnPoint, getTextWidth, inputRef_current. cbn zeta.
    rewrite Hm, (detects_mounted w Hfired), Qle_bool_min. reflexivity. }
  split; [|split].
  - rewrite handleInput_store, Hfired, Hsp. reflexivity.
  - exact Hsp.
  - apply Qplus_le_r. apply Q.le_min_r.
Qed.

Lemma handleInput_spawn_point_witness :
  spawnPoint deletionWorld = (100 + Qmin (inject_Z 2 * 10 + 25) 300, 40 + 44 / 2).
Proof.
  exact (proj1 (proj2
    (handleInput_spawn_point deletionWorld tenPerUnit eq_refl eq_refl))).
Defined.

(** C3, as the code has it.  When the offscreen measurement context is
    unavailable, [getTextWidth] returns 0 and the offset constant is not
    added: a burst that fires is created at x = left edge of the input
    and y = top + height / 2. *)
Theorem handleInput_spawn_point_unmeasured (w : World) :
  let previous := previousValueOf w in
  let rect := boundingClientRect (input w) in
  measureText w = None ->
  burstFired w (exec handleInput w) = true ->
  getTextWidth (firstn (length previous - 1) previous)
               (computedFont (input w)) w = 0
  /\ particlesRef (exec handleInput w) =
     particlesRef
       (exec (createParticles (DOMRect.left rect + 0)
                              (DOMRect.top rect + DOMRect.height rect / 2)
                              particleSettings.numberOfParticles) w)
  /\ DOMRect.left rect + 0 == DOMRect.left rect.
Proof.
  cbn zeta. intros Hm Hfired. rewrite burstFired_detects in Hfired.
  assert (Hw : forall text font, getTextWidth text font w = 0)
    by (intros; unfold getTextWidth; now rewrite Hm).
  split; [apply Hw|]. split; [|ring].
  rewrite handleInput_store, Hfired. unfold spawnPoint. cbn [fst snd].
  now rewrite Hw.
Qed.

Lemma handleInput_spawn_point_unmeasured_witness :
  particlesRef (exec handleInput blindWorld) =
  particlesRef
    (exec (createParticles (100 + 0) (40 + 44 / 2)
                           particleSettings.numberOfParticles) blindWorld).
Proof.
  exact (proj1 (proj2
    (handleInput_spawn_point_unmeasured blindWorld eq_refl eq_refl))).
Defined.

(** C3, counterexample.  Deleting the ["c"] of ["abc"] without a
    measurement context: the burst is created at x = 100, the left edge,
    not at 100 + 25.  Every draw is 0.5 there, so the first particle
    sits exactly on the spawn point. *)
Lemma unmeasured_burst_ignores_offset :
  measureText blindWorld = None /\
  burstFired blindWorld (exec handleInput blindWorld) = true /\
  DOMRect.left (boundingClientRect (input blindWorld)) = 100 /\
  (exists p,
      nth_error (particlesRef (exec handleInput blindWorld)) 0 = Some p /\
      Particle.x p == 100 /\
      ~ Particle.x p == 100 + particleSettings.animationOffsetLeft) /\
  particlesRef (exec handleInput blindWorld) <>
  particlesRef
    (exec (createParticles (100 + particleSettings.animationOffsetLeft)
                           (40 + 44 / 2)
                           particleSettings.numberOfParticles) blindWorld).
Proof.
  split; [reflexivity|]. split; [vm_compute; reflexivity|].
  split; [reflexivity|]. split.
  - eexists. split; [vm_compute; reflexivity|]. split; [reflexivity|].
    intros H. vm_compute in H. discriminate.
  - intros H. apply (f_equal (fun l => nth_error l 0)) in H.
    vm_compute in H. discriminate.
Qed.

(** C8.  With the ref attached to the input, as it is whenever the
    element receives events, the previous text read after [handleInput]
    is the current text of that call, whether or not a burst fired. *)
Theorem handleInput_records_current (w : World) :
  inputMounted w = true ->
  previousValueOf (exec handleInput w) = value (input w) /\
  dataset_previousValue (input (exec handleInput w)) = Some (value (input w)) /\
  forall text, previousValueOf (exec (onInput text) w) = text.
Proof.
  intros Hm.
  assert (H : forall v, inputMounted v = true ->
            dataset_previousValue (input (exec handleInput v))
              = Some (value (input v)) /\
            inputMounted (exec handleInput v) = true).
  { intros v Hv. unfold exec. rewrite handleInput_unfold. cbn [snd].
    assert (Hv' : inputMounted
                    (if detects v then
                       exec (createParticles (fst (spawnPoint v))
                               (snd (spawnPoint v))
                               particleSettings.numberOfParticles) v
                     else v) = true).
    { destruct (detects v); [|exact Hv].
      rewrite createParticles_world. exact Hv. }
    unfold recordPrevious. rewrite Hv'. world_simpl. split; [reflexivity|exact Hv']. }
  assert (G : forall v, inputMounted v = true ->
            previousValueOf (exec handleInput v) = value (input v)).
  { intros v Hv. destruct (H v Hv) as [Hd Hm']. unfold previousValueOf,
      inputRef_current. now rewrite Hm', Hd. }
  split; [now apply G|]. split; [now apply H|].
  intros text. unfold onInput, exec, bind, modify.
  match goal with
  | |- previousValueOf (snd (handleInput ?v)) = _ =>
      change (snd (handleInput v)) with (exec handleInput v);
      rewrite (G v Hm)
  end.
  reflexivity.
Qed.

Lemma handleInput_records_current_witness :
  previousValueOf (exec handleInput deletionWorld) = str "ab" /\
  previousValueOf (exec handleInput typingWorld) = str "abc".
Proof.
  split.
  - exact (proj1 (handleInput_records_current deletionWorld eq_refl)).
  - exact (proj1 (handleInput_records_current typingWorld eq_refl)).
Defined.

(** ** Resizing *)

(** C9.  [resizeCanvas] leaves the particle store as it is, and so does
    any sequence of resizes: the same particles, with the same fields,
    in the same order.  Calling it twice is the same as calling it
    once. *)
Theorem resize_keeps_particles (sizes : list (number * number)) (w : World) :
  particlesRef (resizes sizes w) = particlesRef w /\
  particlesRef (exec resizeCanvas w) = particlesRef w /\
  exec resizeCanvas (exec resizeCanvas w) = exec resizeCanvas w.
Proof.
  split; [|split].
  - revert w. unfold resizes.
    induction sizes as [|s sizes IH]; intros w; [reflexivity|].
    cbn [fold_left]. rewrite IH. apply onResize_store.
  - apply resizeCanvas_store.
  - unfold resizeCanvas, modify, exec. cbn [snd].
    destruct (canvasRef w) as [c|] eqn:Hc.
    + world_simpl. reflexivity.
    + now rewrite Hc.
Qed.

(** ** Bursts *)

Lemma born_ranges (d : Draw) :
  (- 12.5 <= (sample d - 0.5) * 25 /\ (sample d - 0.5) * 25 < 12.5) /\
  (- 2.5 <= (sample d - 0.5) * 5 /\ (sample d - 0.5) * 5 < 2.5) /\
  (0 <= sample d * particleSettings.speed /\
   sample d * particleSettings.speed < particleSettings.speed) /\
  (- (particleSettings.speed / 2) <= (sample d - 0.5) * particleSettings.speed /\
   (sample d - 0.5) * particleSettings.speed < particleSettings.speed / 2).
Proof.
  destruct d as [r [Hlo Hhi]]; cbn [sample].
  unfold particleSettings.speed.
  setoid_replace (5 / 2) with 2.5 by reflexivity.
  repeat split; lra.
Qed.



Example burst_of_three :
  map Particle.color (particlesRef (exec (createParticles 0 0 3) frameWorld))
  = [ "#333333"; "#969696"; "#969696"; "#404040"; "#969696" ]%string.
Proof. vm_compute. reflexivity. Qed.

(** * Further properties of the component *)

(** ** What a frame paints *)

Lemma drawParticles_bitmap (ps : list Particle.t) :
  forall ctx,
    bitmap (fold_left drawParticle ps ctx) = bitmap ctx ++ map discOf ps.
Proof.
  induction ps as [|p ps IH]; intros ctx; cbn [fold_left map].
  - now rewrite app_nil_r.
  - rewrite IH. cbn [drawParticle bitmap globalAlpha fillStyle].
    now rewrite <- app_assoc.
Qed.

Lemma animate_canvas (w : World) canvas ctx :
  canvasRef w = Some canvas ->
  getContext2d canvas = Some ctx ->
  exists ctx',
    canvasRef (exec animate w) =
      Some (mkCanvas (canvasWidth canvas) (canvasHeight canvas) (Some ctx')) /\
    bitmap ctx' = map discOf (particlesRef (exec animate w)) /\
    globalAlpha ctx' =
      if (0 <? length (particlesRef w))%nat then 1 else globalAlpha ctx.
Proof.
  intros Hc Hctx. unfold animate, exec. rewrite Hc, Hctx.
  destruct (0 <? length (particlesRef w))%nat eqn:El.
  - rewrite Array_map_updateParticle.
    unfold requestAnimationFrame, modify. world_simpl.
    eexists. split; [reflexivity|]. cbn [bitmap globalAlpha].
    split; [|reflexivity]. now rewrite drawParticles_bitmap.
  - apply Nat.ltb_ge in El.
    assert (E : particlesRef w = [])
      by (destruct (particlesRef w); cbn in El; [reflexivity|lia]).
    unfold requestAnimationFrame, modify. world_simpl.
    eexists. split; [reflexivity|]. rewrite E. split; reflexivity.
Qed.

(** X1.  After a frame that [animate] draws, the bitmap holds exactly
    one disc per particle of the new store, in store order, centred at
    the particle with its size as radius, its alpha as opacity and its
    color as fill: what earlier frames painted is gone.  The canvas keeps
    its dimensions, and [globalAlpha] is back at 1 when there were
    particles to update; with an empty store it is left as it was. *)
Theorem animate_paints_store (w : World) canvas ctx :
  canvasRef w = Some canvas ->
  getContext2d canvas = Some ctx ->
  exists canvas' ctx',
    canvasRef (exec animate w) = Some canvas' /\
    getContext2d canvas' = Some ctx' /\
    canvasWidth canvas' = canvasWidth canvas /\
    canvasHeight canvas' = canvasHeight canvas /\
    bitmap ctx' = map discOf (particlesRef (exec animate w)) /\
    (particlesRef w <> [] -> globalAlpha ctx' = 1) /\
    (particlesRef w = [] ->
     globalAlpha ctx' = globalAlpha ctx /\ fillStyle ctx' = fillStyle ctx).
Proof.
  intros Hc Hctx.
  destruct (animate_canvas w canvas ctx Hc Hctx) as (ctx' & Hcan & Hbit & Hga).
  exists (mkCanvas (canvasWidth canvas) (canvasHeight canvas) (Some ctx')), ctx'.
  repeat (split; [first [exact Hcan | exact Hbit | reflexivity]|]).
  split.
  - intros Hne. rewrite Hga. destruct (particlesRef w); [congruence|reflexivity].
  - intros He. rewrite He in Hga. split; [exact Hga|].
    revert Hcan. unfold animate, exec. rewrite Hc, Hctx, He. cbn.
    intros H. now injection H as <-.
Qed.

Lemma animate_paints_store_witness :
  exists canvas' ctx',
    canvasRef (exec animate frameWorld) = Some canvas' /\
    getContext2d canvas' = Some ctx' /\
    bitmap ctx' = map discOf (particlesRef (exec animate frameWorld)).
Proof.
  destruct (animate_paints_store frameWorld fullCanvas emptyContext
              eq_refl eq_refl)
    as (canvas' & ctx' & H1 & H2 & _ & _ & H3 & _).
  exists canvas', ctx'. repeat split; assumption.
Defined.

(** ** How long particles last *)

Lemma runFrame_drawn (w : World) ctx n :
  drawingContext w = Some ctx ->
  frameRequests w = S n ->
  exists w' ctx',
    runFrame w = Some w' /\
    particlesRef w' = filter alive (aged (entropy w) (drawn w) (particlesRef w)) /\
    drawingContext w' = Some ctx' /\
    frameRequests w' = S n /\
    entropy w' = entropy w /\
    drawn w' = (drawn w + length (particlesRef w))%nat.
Proof.
  intros Hctx Hn. unfold runFrame. rewrite Hn.
  unfold drawingContext in Hctx.
  destruct (canvasRef w) as [c|] eqn:Hc; [|discriminate].
  destruct (animate_drawn (set_frameRequests n w) c ctx Hc Hctx) as [ctx' ->].
  eexists. exists ctx'. split; [reflexivity|]. now cbn.
Qed.

Lemma fadeStep_positive (p : Particle.t) :
  0 < Particle.lifespan p -> 0 < fadeStep p.
Proof.
  intros H. unfold fadeStep, Qdiv. apply Qmult_lt_0_compat; [reflexivity|].
  now apply Qinv_lt_0_compat.
Qed.

Lemma succ_times (k : nat) (d : Q) :
  inject_Z (Z.of_nat (S k)) * d == inject_Z (Z.of_nat k) * d + d.
Proof. rewrite Nat2Z.inj_succ. unfold Z.succ. rewrite inject_Z_plus. ring. Qed.

Lemma aged_fades rnd (k : nat) (ps : list Particle.t) :
  forall j,
    Forall (fadesWithin (S k)) ps ->
    Forall (fadesWithin k) (aged rnd j ps).
Proof.
  induction ps as [|p ps IH]; intros j H; cbn [aged]; [constructor|].
  inversion H as [|? ? [Hl Ha] Hps]; subst. constructor; [|now apply IH].
  split; [exact Hl|].
  change (Particle.alpha p - fadeStep p <= inject_Z (Z.of_nat k) * fadeStep p).
  rewrite succ_times in Ha. lra.
Qed.

Lemma spent_are_culled (ps : list Particle.t) :
  Forall (fadesWithin 0) ps -> filter alive ps = [].
Proof.
  induction ps as [|p ps IH]; intros H; [reflexivity|].
  inversion H as [|? ? [_ Ha] Hps]; subst. cbn [filter].
  destruct (alive p) eqn:Hal; [|now apply IH].
  apply alive_iff in Hal. exfalso. apply Hal.
  change (inject_Z (Z.of_nat 0)) with 0 in Ha.
  now rewrite Qmult_0_l in Ha.
Qed.

Lemma aged_outlasts rnd (k : nat) (ps : list Particle.t) :
  forall j,
    Forall (outlasts (S k)) ps ->
    filter alive (aged rnd j ps) = aged rnd j ps /\
    Forall (outlasts k) (aged rnd j ps).
Proof.
  induction ps as [|p ps IH]; intros j H; cbn [aged]; [now split|].
  inversion H as [|? ? [Hl Ha] Hps]; subst.
  destruct (IH (S j) Hps) as [Hf Ho].
  pose proof (fadeStep_positive p Hl) as Hd.
  assert (Hk : 0 <= inject_Z (Z.of_nat k))
    by (change 0 with (inject_Z 0); rewrite <- Zle_Qle; lia).
  assert (Hkd : 0 <= inject_Z (Z.of_nat k) * fadeStep p)
    by (apply Qmult_le_0_compat; [exact Hk|now apply Qlt_le_weak]).
  rewrite succ_times in Ha.
  assert (Hnew : inject_Z (Z.of_nat k) * fadeStep p
                 < Particle.alpha (physics p (sample (rnd j)))).
  { change (inject_Z (Z.of_nat k) * fadeStep p < Particle.alpha p - fadeStep p).
    lra. }
  split.
  - cbn [filter].
    assert (Hal : alive (physics p (sample (rnd j))) = true).
    { apply alive_iff. intros Hle. lra. }
    rewrite Hal. now rewrite Hf.
  - constructor; [|exact Ho]. split; [exact Hl|exact Hnew].
Qed.

Lemma filter_keeps_Forall {A} (P : A -> Prop) (f : A -> bool) (l : list A) :
  Forall P l -> Forall P (filter f l).
Proof.
  intros H. apply Forall_forall. intros a Ha. apply filter_In in Ha.
  destruct Ha as [Ha _]. revert a Ha. now apply Forall_forall.
Qed.

Lemma store_empties_frames (k : nat) :
  forall (w : World) ctx n,
    drawingContext w = Some ctx ->
    frameRequests w = S n ->
    Forall (fadesWithin (S k)) (particlesRef w) ->
    exists w' ctx',
      runFrames (S k) w = Some w' /\ particlesRef w' = [] /\
      drawingContext w' = Some ctx' /\ frameRequests w' = S n.
Proof.
  induction k as [|k IH]; intros w ctx n Hctx Hn Hall;
    destruct (runFrame_drawn w ctx n Hctx Hn)
      as (w1 & ctx1 & Hrun & Hst & Hctx1 & Hn1 & _);
    cbn [runFrames]; rewrite Hrun.
  - exists w1, ctx1. split; [reflexivity|]. split; [|now split]. rewrite Hst.
    apply spent_are_culled. now apply aged_fades.
  - apply (IH w1 ctx1 n Hctx1 Hn1). rewrite Hst.
    apply filter_keeps_Forall. now apply aged_fades.
Qed.

(** No particle is culled early: when every stored particle has a
    positive lifespan and an alpha of more than [k] fade steps, [k]
    frames drawn in a row remove none of them. *)
Lemma store_survives_frames (k : nat) :
  forall (w : World) ctx n,
    drawingContext w = Some ctx ->
    frameRequests w = S n ->
    Forall (outlasts k) (particlesRef w) ->
    exists w',
      runFrames k w = Some w' /\
      length (particlesRef w') = length (particlesRef w) /\
      Forall (outlasts 0) (particlesRef w').
Proof.
  induction k as [|k IH]; intros w ctx n Hctx Hn Hall.
  - exists w. now repeat split.
  - destruct (runFrame_drawn w ctx n Hctx Hn)
      as (w1 & ctx1 & Hrun & Hst & Hctx1 & Hn1 & _).
    cbn [runFrames]. rewrite Hrun.
    destruct (aged_outlasts (entropy w) k (particlesRef w) (drawn w) Hall)
      as [Hkeep Hout].
    rewrite Hkeep in Hst.
    destruct (IH w1 ctx1 n Hctx1 Hn1) as (w' & Hrun' & Hlen & Hout').
    + now rewrite Hst.
    + exists w'. split; [exact Hrun'|]. split; [|exact Hout'].
      now rewrite Hlen, Hst, aged_length.
Qed.

Lemma burst_fresh x y rnd count :
  forall k,
    Forall (fun p => Particle.alpha p = 1 /\
                     Particle.lifespan p = particleSettings.lifespan)
           (burst x y rnd k count).
Proof.
  induction count as [|n IH]; intros k; cbn [burst]; constructor;
    [now split|apply IH].
Qed.

Lemma createParticles_surface x y count w :
  drawingContext (exec (createParticles x y count) w) = drawingContext w /\
  frameRequests (exec (createParticles x y count) w) = frameRequests w.
Proof. rewrite createParticles_world. now split. Qed.

(** X3.  A burst lasts 59 frames: after [createParticles] on an empty
    store, all [n] particles are still stored after 59 frames drawn in a
    row, and the store is empty after the 60th. *)
Theorem burst_lifetime (x y : number) (n : nat) (w : World) ctx m :
  drawingContext w = Some ctx ->
  frameRequests w = S m ->
  particlesRef w = [] ->
  (exists w59,
      runFrames 59 (exec (createParticles x y n) w) = Some w59 /\
      length (particlesRef w59) = n) /\
  (exists w60,
      runFrames 60 (exec (createParticles x y n) w) = Some w60 /\
      particlesRef w60 = []).
Proof.
  intros Hctx Hm He.
  destruct (createParticles_surface x y n w) as [Hs Hf].
  rewrite Hctx in Hs. rewrite Hm in Hf.
  assert (Hstore : particlesRef (exec (createParticles x y n) w)
                   = burst x y (entropy w) (drawn w) n)
    by (now rewrite createParticles_store, He).
  pose proof (burst_fresh x y (entropy w) n (drawn w)) as Hfresh.
  split.
  - destruct (store_survives_frames 59 _ ctx m Hs Hf) as (w' & Hrun & Hlen & _).
    + rewrite Hstore. revert Hfresh. apply Forall_impl.
      intros p [Ha Hl]. unfold outlasts, fadeStep. rewrite Ha, Hl.
      split; reflexivity.
    + exists w'. split; [exact Hrun|].
      now rewrite Hlen, Hstore, burst_length.
  - destruct (store_empties_frames 59 _ ctx m Hs Hf) as (w' & _ & Hrun & He' & _).
    + rewrite Hstore. revert Hfresh. apply Forall_impl.
      intros p [Ha Hl]. unfold fadesWithin, fadeStep. rewrite Ha, Hl.
      split; [reflexivity|apply Qle_bool_imp_le; reflexivity].
    + exists w'. now split.
Qed.

Lemma burst_lifetime_witness :
  exists w60,
    runFrames 60 (exec (createParticles 100 50 7) zeroWorld) = Some w60 /\
    particlesRef w60 = [].
Proof.
  exact (proj2 (burst_lifetime 100 50 7 zeroWorld emptyContext 0
                  eq_refl eq_refl eq_refl)).
Defined.

(** ** The idle loop *)





(** ** What handleInput leaves alone *)

Lemma handleInput_fields (w : World) :
  let w' := exec handleInput w in
  canvasRef w' = canvasRef w /\
  frameRequests w' = frameRequests w /\
  innerWidth w' = innerWidth w /\
  innerHeight w' = innerHeight w /\
  measureText w' = measureText w /\
  inputMounted w' = inputMounted w /\
  entropy w' = entropy w /\
  drawn w' =
    (drawn w +
     if detects w then 5 * particleSettings.numberOfParticles else 0)%nat /\
  value (input w') = value (input w) /\
  computedFont (input w') = computedFont (input w) /\
  boundingClientRect (input w') = boundingClientRect (input w) /\
  dataset_previousValue (input w') =
    if inputMounted w then Some (value (input w))
    else dataset_previousValue (input w).
Proof.
  cbn zeta. unfold exec. rewrite handleInput_unfold. cbn [snd].
  unfold recordPrevious.
  destruct (detects w); [rewrite createParticles_world|]; world_simpl;
    destruct (inputMounted w) eqn:Hm; world_simpl; repeat split;
    first [reflexivity | assumption
          | unfold particleSettings.numberOfParticles; lia].
Qed.

Lemma unattached_detects_nothing (w : World) :
  inputMounted w = false -> detects w = false.
Proof.
  intros Hm. apply not_true_iff_false. intros Hd.
  apply detects_mounted in Hd. congruence.
Qed.

(** X4.  While [inputRef.current] is [null], [handleInput] does nothing
    at all, whatever the text: the previous text reads as empty, so no
    burst is created (and [getTextWidth] is not reached), and nothing is
    recorded, so the next call sees an empty previous text again. *)
Theorem handleInput_unattached (w : World) :
  inputMounted w = false ->
  handleInput w = (tt, w) /\
  forall text,
    particlesRef (exec (onInput text) w) = particlesRef w /\
    previousValueOf (exec (onInput text) w) = [].
Proof.
  intros Hm.
  assert (H : forall v, inputMounted v = false -> handleInput v = (tt, v)).
  { intros v Hv. rewrite handleInput_unfold.
    rewrite (unattached_detects_nothing v Hv).
    unfold recordPrevious. now rewrite Hv. }
  split; [now apply H|]. intros text.
  unfold onInput, exec, bind, modify. rewrite H by exact Hm. cbn [snd].
  split; [reflexivity|].
  unfold previousValueOf, inputRef_current. world_simpl. now rewrite Hm.
Qed.

Lemma handleInput_unattached_witness :
  handleInput (mkWorld (field "ab" "abc") false (Some fullCanvas) []
                       alternating 0 1 800 600 (Some tenPerUnit))
  = (tt, mkWorld (field "ab" "abc") false (Some fullCanvas) []
                 alternating 0 1 800 600 (Some tenPerUnit)).
Proof.
  exact (proj1 (handleInput_unattached
    (mkWorld (field "ab" "abc") false (Some fullCanvas) []
             alternating 0 1 800 600 (Some tenPerUnit)) eq_refl)).
Defined.

(** X5.  [handleInput] touches the particle store, the draws and
    [dataset.previousValue] only: the canvas and what is painted on it,
    the pending frame requests, the viewport, the measurement context,
    the ref, and the text, font and box of the input are as before. *)
Theorem handleInput_leaves_surface (w : World) :
  canvasRef (exec handleInput w) = canvasRef w /\
  frameRequests (exec handleInput w) = frameRequests w /\
  innerWidth (exec handleInput w) = innerWidth w /\
  innerHeight (exec handleInput w) = innerHeight w /\
  measureText (exec handleInput w) = measureText w /\
  inputMounted (exec handleInput w) = inputMounted w /\
  value (input (exec handleInput w)) = value (input w) /\
  computedFont (input (exec handleInput w)) = computedFont (input w) /\
  boundingClientRect (input (exec handleInput w))
    = boundingClientRect (input w).
Proof.
  pose proof (handleInput_fields w) as H. cbn zeta in H.
  destruct H as (H1 & H2 & H3 & H4 & H5 & H6 & _ & _ & H9 & H10 & H11 & _).
  repeat (split; [assumption|]). assumption.
Qed.

(** ** Calls of Math.random *)

(** X6.  Every value is computed from draws of its own:
    [createParticles] calls [Math.random()] five times per particle, a
    drawn frame once per particle stored before it, [handleInput] 600
    times when a burst fires and never otherwise; a skipped frame and a
    resize call it not at all. *)
Theorem draw_accounting (w : World) :
  (forall x y n,
      drawn (exec (createParticles x y n) w) = (drawn w + 5 * n)%nat) /\
  drawn (exec animate w) =
    (drawn w + match drawingContext w with
               | Some _ => length (particlesRef w)
               | None => 0
               end)%nat /\
  drawn (exec handleInput w) =
    (drawn w + if burstFired w (exec handleInput w) then 600 else 0)%nat /\
  (forall vw vh, drawn (exec (onResize vw vh) w) = drawn w) /\
  entropy (exec animate w) = entropy w /\
  entropy (exec handleInput w) = entropy w.
Proof.
  split; [|split; [|split; [|split; [|split]]]].
  - intros x y n. now rewrite createParticles_world.
  - unfold drawingContext.
    destruct (canvasRef w) as [c|] eqn:Hc.
    + destruct (getContext2d c) as [ctx|] eqn:Hctx.
      * destruct (animate_drawn w c ctx Hc Hctx) as [ctx' ->]. reflexivity.
      * unfold exec. rewrite animate_skipped; [cbn; lia|].
        unfold drawingContext. now rewrite Hc.
    + unfold exec. rewrite animate_skipped; [cbn; lia|].
      unfold drawingContext. now rewrite Hc.
  - rewrite burstFired_detects.
    pose proof (handleInput_fields w) as H. cbn zeta in H.
    destruct H as (_ & _ & _ & _ & _ & _ & _ & H & _). exact H.
  - intros vw vh. unfold onResize, bind, modify, resizeCanvas, exec. cbn.
    unfold set_viewport; cbn. now destruct (canvasRef w).
  - unfold drawingContext.
    destruct (drawingContext w) as [ctx|] eqn:Hd.
    + unfold drawingContext in Hd.
      destruct (canvasRef w) as [c|] eqn:Hc; [|discriminate].
      destruct (animate_drawn w c ctx Hc Hd) as [ctx' ->]. reflexivity.
    + unfold exec. now rewrite animate_skipped.
  - pose proof (handleInput_fields w) as H. cbn zeta in H.
    destruct H as (_ & _ & _ & _ & _ & _ & H & _). exact H.
Qed.

(** ** Sequences of edits *)

Lemma onInput_step (w : World) (t : JSString) :
  inputMounted w = true ->
  length (particlesRef (exec (onInput t) w)) =
    (length (particlesRef w)
     + if shortens (previousValueOf w) t
       then particleSettings.numberOfParticles else 0)%nat /\
  inputMounted (exec (onInput t) w) = true /\
  previousValueOf (exec (onInput t) w) = t.
Proof.
  intros Hm. unfold onInput, exec, bind, modify.
  set (v := set_input _ w).
  change (snd (handleInput v)) with (exec handleInput v).
  assert (Hv : inputMounted v = true) by exact Hm.
  assert (Hp : previousValueOf v = previousValueOf w).
  { unfold previousValueOf, inputRef_current, v. world_simpl. now rewrite Hm. }
  assert (Hd : detects v = shortens (previousValueOf w) t).
  { unfold detects, shortens. cbn zeta. now rewrite Hp. }
  pose proof (handleInput_fields v) as H. cbn zeta in H.
  destruct H as (_ & _ & _ & _ & _ & H6 & _ & _ & _ & _ & _ & H12).
  rewrite Hv in H6, H12.
  split; [|split; [exact H6|]].
  - rewrite handleInput_store, Hd.
    destruct (shortens (previousValueOf w) t).
    + now rewrite burst_positive.
    + now rewrite Nat.add_0_r.
  - unfold previousValueOf, inputRef_current. now rewrite H6, H12.
Qed.

Lemma last_cons_default {A} (l : list A) :
  forall a d, last (a :: l) d = last l a.
Proof.
  induction l as [|b l IH]; intros a d; [reflexivity|].
  change (last (a :: b :: l) d) with (last (b :: l) d).
  rewrite (IH b d). symmetry. apply IH.
Qed.

(** X7.  Over any sequence of edits the store grows by one burst of 120
    particles for each edit that makes the text shorter than it was just
    before and whose preceding text does not end in a space, and by
    nothing else: the handler compares each text with the one recorded
    by the call before it, and no number of bursts is ever refused. *)
Theorem edits_store_length (texts : list JSString) :
  forall w,
    inputMounted w = true ->
    length (particlesRef (edits texts w)) =
      (length (particlesRef w)
       + particleSettings.numberOfParticles
         * bursts (previousValueOf w) texts)%nat /\
    previousValueOf (edits texts w) = last texts (previousValueOf w).
Proof.
  unfold edits.
  induction texts as [|t texts IH]; intros w Hm.
  - cbn. split; [lia|reflexivity].
  - cbn [fold_left bursts].
    destruct (onInput_step w t Hm) as (Hlen & Hm' & Hp).
    destruct (IH _ Hm') as [IHlen IHp]. rewrite IHlen, IHp, Hlen, Hp.
    split.
    + destruct (shortens (previousValueOf w) t); lia.
    + symmetry. apply last_cons_default.
Qed.

Lemma edits_store_length_witness :
  length (particlesRef
    (edits [str "abc"; str "ab"; str "a"; str "a "; str "a"] typingWorld))
  = 240%nat.
Proof.
  exact (proj1 (edits_store_length
    [str "abc"; str "ab"; str "a"; str "a "; str "a"] typingWorld eq_refl)).
Defined.

Lemma shortens_snoc (s : JSString) (c : CodeUnit) :
  shortens (s ++ [c]) s = negb (N.eqb c SPACE).
Proof.
  unfold shortens. rewrite length_app. cbn [length].
  replace (length s + 1 - 1)%nat with (length s) by lia.
  rewrite nth_error_app2 by lia. rewrite Nat.sub_diag. cbn [nth_error notSpace].
  replace (length s <? length s + 1)%nat with true
    by (symmetry; apply Nat.ltb_lt; lia).
  reflexivity.
Qed.

(** X8.  Typing a character and deleting it again: after the text went
    from [s] to [s] followed by [c], going back to [s] fires a burst if
    and only if [c] is not a space. *)
Theorem type_then_delete (w : World) (s : JSString) (c : CodeUnit) :
  inputMounted w = true ->
  let typed := exec (onInput (s ++ [c])) w in
  let deleted := exec (onInput s) typed in
  (burstFired typed deleted = true <-> c <> SPACE) /\
  previousValueOf deleted = s.
Proof.
  intros Hm. cbn zeta.
  destruct (onInput_step w (s ++ [c]) Hm) as (_ & Hm1 & Hp1).
  destruct (onInput_step _ s Hm1) as (Hlen & _ & Hp2).
  split; [|exact Hp2].
  unfold burstFired. rewrite Hlen, Hp1, shortens_snoc.
  destruct (N.eqb c SPACE) eqn:Hc; cbn [negb].
  - apply N.eqb_eq in Hc. rewrite Nat.add_0_r. split; [|congruence].
    intros H. apply Nat.eqb_eq in H.
    unfold particleSettings.numberOfParticles in H. lia.
  - apply N.eqb_neq in Hc. rewrite Nat.eqb_refl. now split.
Qed.

Lemma type_then_delete_witness :
  previousValueOf
    (exec (onInput (str "ab")) (exec (onInput (str "ab" ++ [SPACE])) typingWorld))
  = str "ab".
Proof.
  exact (proj2 (type_then_delete typingWorld (str "ab") SPACE eq_refl)).
Defined.

(** ** Where a burst appears *)


Lemma burst_Forall (P : Particle.t -> Prop) x y rnd count :
  (forall k, P (born x y rnd k)) ->
  forall k, Forall P (burst x y rnd k count).
Proof.
  intros H. induction count as [|n IH]; intros k; cbn [burst]; constructor;
    [apply H|apply IH].
Qed.




(** ** Mounting and resizing *)

(** X10.  The mount effect: without a canvas it does nothing, so no
    frame is ever requested; with a canvas it sets the canvas to the
    size of the viewport and runs the first frame, which requests the
    next one when the canvas gives a 2D context and does not otherwise. *)
Theorem mountEffect_starts_loop (w : World) :
  match canvasRef w with
  | None => mountEffect w = (tt, w)
  | Some canvas =>
      exists canvas',
        canvasRef (exec mountEffect w) = Some canvas' /\
        canvasWidth canvas' = innerWidth w /\
        canvasHeight canvas' = innerHeight w /\
        match getContext2d canvas with
        | Some _ =>
            frameRequests (exec mountEffect w) = S (frameRequests w) /\
            particlesRef (exec mountEffect w) =
              filter alive (aged (entropy w) (drawn w) (particlesRef w))
        | None =>
            frameRequests (exec mountEffect w) = frameRequests w /\
            particlesRef (exec mountEffect w) = particlesRef w
        end
  end.
Proof.
  unfold mountEffect.
  destruct (canvasRef w) as [c|] eqn:Hc; [|reflexivity].
  unfold exec, bind, resizeCanvas, modify. rewrite Hc.
  set (v := set_canvasRef _ w).
  change (snd (animate v)) with (exec animate v).
  assert (Hv : canvasRef v =
               Some (mkCanvas (innerWidth w) (innerHeight w) (getContext2d c)))
    by reflexivity.
  destruct (getContext2d c) as [ctx|] eqn:Hctx.
  - destruct (animate_drawn v _ ctx Hv eq_refl) as [ctx' ->].
    eexists. split; [reflexivity|]. now repeat split.
  - unfold exec. rewrite animate_skipped
      by (unfold drawingContext; now rewrite Hv).
    eexists. split; [exact Hv|]. now repeat split.
Qed.




(** ** What every stored particle looks like *)

Lemma born_seasoned x y rnd k : seasoned (born x y rnd k).
Proof.
  unfold seasoned. cbn [born Particle.alpha Particle.size Particle.lifespan
    Particle.vx Particle.vy Particle.color].
  pose proof (born_ranges (rnd (2 + k)%nat)) as (_ & _ & (Hv1 & Hv2) & _).
  pose proof (born_ranges (rnd (3 + k)%nat)) as (_ & _ & _ & (Hy1 & Hy2)).
  split; [reflexivity|]. split; [apply Qle_refl|].
  split; [reflexivity|]. split; [apply Qle_refl|].
  split; [reflexivity|].
  split; [unfold particleSettings.wind in *; lra|].
  split; [unfold particleSettings.wind in *; lra|].
  split; [exact Hy1|]. split; [exact Hy2|].
  apply nth_In. apply colorIndex_bound.
Qed.

Lemma physics_seasoned (p : Particle.t) (r : number) :
  seasoned p -> alive (physics p r) = true -> seasoned (physics p r).
Proof.
  intros (Ha1 & Ha2 & Hs1 & Hs2 & Hl & Hrest) Hal.
  apply alive_iff in Hal.
  unfold seasoned. cbn [physics Particle.alpha Particle.size Particle.lifespan
    Particle.vx Particle.vy Particle.color] in *.
  rewrite Hl in *.
  assert (Hd : 0 < particleSettings.fadeSpeed / particleSettings.lifespan)
    by reflexivity.
  set (d := particleSettings.fadeSpeed / particleSettings.lifespan) in *.
  unfold particleSettings.size in *.
  split; [apply Qnot_le_lt; exact Hal|].
  split; [lra|]. split; [lra|]. split; [lra|].
  split; [reflexivity|exact Hrest].
Qed.

Lemma aged_seasoned rnd (ps : list Particle.t) :
  forall k,
    Forall seasoned ps -> Forall seasoned (filter alive (aged rnd k ps)).
Proof.
  induction ps as [|p ps IH]; intros k H; cbn [aged filter]; [constructor|].
  inversion H as [|? ? Hp Hps]; subst.
  destruct (alive (physics p (sample (rnd k)))) eqn:Hal; [|now apply IH].
  constructor; [now apply physics_seasoned|now apply IH].
Qed.

Lemma seasoned_disc (p : Particle.t) : seasoned p -> visibleDisc (discOf p).
Proof.
  intros (Ha1 & Ha2 & Hs1 & _). unfold visibleDisc. cbn. now repeat split.
Qed.

(** X12.  Every operation keeps the store as the component makes it:
    when each stored particle has an alpha in (0, 1], a size in
    (0, 1.25], the configured lifespan, a vx in [wind, speed + wind), a vy
    in [-speed/2, speed/2) and a color of the palette, the same holds after
    a frame, after [handleInput], after [createParticles] and after a
    resize.  So every disc a drawn frame leaves on the bitmap has a
    positive radius, which [arc] accepts, and an opacity in (0, 1]. *)
Theorem store_stays_seasoned (w : World) :
  Forall seasoned (particlesRef w) ->
  Forall seasoned (particlesRef (exec animate w)) /\
  Forall seasoned (particlesRef (exec handleInput w)) /\
  (forall x y n,
      Forall seasoned (particlesRef (exec (createParticles x y n) w))) /\
  (forall vw vh, Forall seasoned (particlesRef (exec (onResize vw vh) w))) /\
  (forall canvas ctx,
      canvasRef w = Some canvas ->
      getContext2d canvas = Some ctx ->
      exists canvas' ctx',
        canvasRef (exec animate w) = Some canvas' /\
        getContext2d canvas' = Some ctx' /\
        Forall visibleDisc (bitmap ctx')).
Proof.
  intros H.
  assert (Hanim : Forall seasoned (particlesRef (exec animate w))).
  { destruct (drawingContext w) as [ctx|] eqn:Hctx.
    - rewrite (animate_store w ctx Hctx). now apply aged_seasoned.
    - unfold exec. now rewrite (animate_skipped w Hctx). }
  assert (Hcreate : forall x y n,
             Forall seasoned (particlesRef (exec (createParticles x y n) w))).
  { intros x y n. rewrite createParticles_store. apply Forall_app.
    split; [exact H|]. apply burst_Forall. intros k. apply born_seasoned. }
  split; [exact Hanim|]. split; [|split; [exact Hcreate|split]].
  - rewrite handleInput_store. destruct (detects w); [apply Hcreate|exact H].
  - intros vw vh. now rewrite onResize_store.
  - intros canvas ctx Hc Hctx.
    destruct (animate_canvas w canvas ctx Hc Hctx) as (ctx' & Hcan & Hbit & _).
    eexists. exists ctx'. split; [exact Hcan|]. split; [reflexivity|].
    rewrite Hbit. apply Forall_map. revert Hanim. apply Forall_impl.
    exact seasoned_disc.
Qed.

Lemma seasonedWorld_is_seasoned : Forall seasoned (particlesRef seasonedWorld).
Proof.
  repeat constructor;
    first [ apply Qle_bool_imp_le; reflexivity
          | cbn; tauto ].
Defined.

Lemma store_stays_seasoned_witness :
  Forall seasoned (particlesRef (exec animate seasonedWorld)) /\
  Forall seasoned (particlesRef (exec handleInput seasonedWorld)).
Proof.
  destruct (store_stays_seasoned seasonedWorld seasonedWorld_is_seasoned)
    as (H1 & H2 & _).
  split; assumption.
Defined.

(** ** Trajectories *)






